(** * Viewport engine of [src/components/ui/Map.vue]

    A shallow embedding of the [<script setup>] block of the map widget:
    the reactive refs ([pan], [zoom], [dragging], [last], [cursorStyle],
    [viewportRef]), the four event handlers bound in the template, the
    computed grid variables [cssVars] and the item layer's
    [worldTransform].  The [hudText] line prints rounded numbers and is
    left out.

    Numbers.  The source computes on JavaScript numbers, which are
    binary64 floating-point values.  The main development takes a
    number to be an exact rational ([Q]) with [Qeq] ([==]) for equality:
    it is sound for what each handler writes, for orderings and bounds,
    and for laws meant up to rounding, which it states as laws of exact
    arithmetic.  Division by zero is where exact arithmetic and the
    source part ways for good (JavaScript yields an infinity or [NaN],
    [Q] yields 0); every statement that depends on a quotient or a
    remainder assumes its divisor is not zero.

    Module [Binary64] replays the same source lines on binary64 values.
    It is where a law that holds only up to rounding is shown to fail
    bit for bit. *)

From Stdlib Require Import QArith Qminmax Qround ZArith Lia Lqa.
From Stdlib Require Import List String Bool Setoid Morphisms.
From Stdlib Require Import PrimFloat.

(** Decimal literals of binary64 numbers denote the nearest binary64
    value, as they do in the source. *)
#[local] Set Warnings "-inexact-float".
Import ListNotations.

Local Open Scope Q_scope.

(** ** Numbers and the two arithmetic helpers *)

Definition number := Q.

(** [const clamp = (v, a, b) => Math.max(a, Math.min(b, v))] *)
Definition clamp (v a b : number) : number := Qmax a (Qmin b v).

(** The integer part of a number, rounding toward zero. *)
Definition Qtrunc (q : number) : Z :=
  if Qlt_le_dec q 0 then Qceiling q else Qfloor q.

(** The JavaScript remainder [n % m]: [n - m * q] where [q] is the
    quotient [n / m] truncated toward zero, so the result takes the sign
    of the dividend. *)
Definition js_rem (n m : number) : number :=
  n - m * inject_Z (Qtrunc (n / m)).

Declare Scope js_scope.
Infix "%%" := js_rem (at level 40, left associativity) : js_scope.
Local Open Scope js_scope.

(** [const mod = (n, m) => ((n % m) + m) % m]; [mod] is a reserved word
    here, hence the underscore. *)
Definition mod_ (n m : number) : number := ((n %% m) + m) %% m.

(** ** Data *)

(** Object literals [{ x, y }] held by the [pan] and [last] refs. *)
Record Point : Type := mkPoint { x : number; y : number }.

(** Numeric equality of points, componentwise. *)
Definition Point_eq (p q : Point) : Prop := x p == x q /\ y p == y q.

Module MapItem.
Inductive Id : Type := IdString (s : string) | IdNumber (n : number).
Record t : Type := mk { id : Id; x : number; y : number; label : option string }.
End MapItem.

(** The props as the parent passes them: every one but [items] optional. *)
Record RawProps : Type := mkRawProps {
  raw_items : list MapItem.t;
  raw_cellSize : option number;
  raw_bigCellSize : option number;
  raw_minZoom : option number;
  raw_maxZoom : option number;
  raw_initialZoom : option number;
  raw_showHud : option bool
}.

(** The props as the script reads them, after [withDefaults]. *)
Record Props : Type := mkProps {
  items : list MapItem.t;
  cellSize : number;
  bigCellSize : number;
  minZoom : number;
  maxZoom : number;
  initialZoom : number;
  showHud : bool
}.

Definition orDefault {A : Type} (o : option A) (d : A) : A :=
  match o with Some a => a | None => d end.

Definition withDefaults (r : RawProps) : Props :=
  {| items := raw_items r;
     cellSize := orDefault (raw_cellSize r) 32;
     bigCellSize := orDefault (raw_bigCellSize r) 160;
     minZoom := orDefault (raw_minZoom r) 0.25;
     maxZoom := orDefault (raw_maxZoom r) 3;
     initialZoom := orDefault (raw_initialZoom r) 1;
     showHud := orDefault (raw_showHud r) true |}.

(** ** Completions: a call returns or throws *)

Inductive exn : Type :=
| TypeError            (* property access on [null] *)
| DOMException (name : string).

Inductive completion (A : Type) : Type :=
| Normal (a : A)
| Throw (e : exn).
Arguments Normal {A} a.
Arguments Throw {A} e.

(** ** The host objects the handlers touch *)

(** What [getBoundingClientRect()] returns; the handlers read [left] and
    [top] only. *)
Record DOMRect : Type := mkRect { left : number; top : number }.

(** The element of an event's [currentTarget].  Its two capture methods
    belong to the host; each call returns or throws, as the host decides. *)
Record HTMLElement : Type := mkElement {
  setPointerCapture : Z -> completion unit;
  releasePointerCapture : Z -> completion unit
}.

Record PointerEvent : Type := mkPointerEvent {
  clientX : number;
  clientY : number;
  pointerId : Z;
  currentTarget : option HTMLElement
}.

Record WheelEvent : Type := mkWheelEvent {
  wheelX : number;      (* e.clientX *)
  wheelY : number;      (* e.clientY *)
  deltaY : number
}.

(** ** Component state: one field per [ref] *)

Record State : Type := mkState {
  viewportRef : option DOMRect;
  pan : Point;
  zoom : number;
  dragging : bool;
  last : Point;
  cursorStyle : string
}.

Definition set_viewportRef (v : option DOMRect) (s : State) : State :=
  mkState v (pan s) (zoom s) (dragging s) (last s) (cursorStyle s).
Definition set_pan (p : Point) (s : State) : State :=
  mkState (viewportRef s) p (zoom s) (dragging s) (last s) (cursorStyle s).
Definition set_zoom (z : number) (s : State) : State :=
  mkState (viewportRef s) (pan s) z (dragging s) (last s) (cursorStyle s).
Definition set_dragging (b : bool) (s : State) : State :=
  mkState (viewportRef s) (pan s) (zoom s) b (last s) (cursorStyle s).
Definition set_last (p : Point) (s : State) : State :=
  mkState (viewportRef s) (pan s) (zoom s) (dragging s) p (cursorStyle s).
Definition set_cursorStyle (c : string) (s : State) : State :=
  mkState (viewportRef s) (pan s) (zoom s) (dragging s) (last s) c.

(** ** Handlers as state transformers that may throw

    A handler maps the state before to the state after and a completion.
    Writes made before a throw stay: an exception does not roll back a
    [ref]. *)

Definition M (A : Type) : Type := State -> State * completion A.

Definition ret {A : Type} (a : A) : M A := fun s => (s, Normal a).

Definition bind {A B : Type} (m : M A) (k : A -> M B) : M B :=
  fun s =>
    match m s with
    | (s', Normal a) => k a s'
    | (s', Throw e) => (s', Throw e)
    end.

Declare Scope handler_scope.
Delimit Scope handler_scope with handler.
Notation "m ;; k" := (bind m (fun _ => k))
  (at level 61, right associativity) : handler_scope.
Notation "v <- m ;; k" := (bind m (fun v => k))
  (at level 61, m at next level, right associativity) : handler_scope.

Definition read {A : Type} (f : State -> A) : M A := fun s => (s, Normal (f s)).
Definition write (f : State -> State) : M unit := fun s => (f s, Normal tt).
Definition throw {A : Type} (e : exn) : M A := fun s => (s, Throw e).

(** A call into the host: it leaves the refs alone. *)
Definition host {A : Type} (c : completion A) : M A := fun s => (s, c).

(** [try { m } catch {}] *)
Definition try_catch (m : M unit) : M unit :=
  fun s =>
    match m s with
    | (s', Normal a) => (s', Normal a)
    | (s', Throw _) => (s', Normal tt)
    end.

(** [(e.currentTarget as HTMLElement).method(e.pointerId)]: the cast checks
    nothing, so a [null] target throws at the property access. *)
Definition onTarget (e : PointerEvent)
  (method : HTMLElement -> Z -> completion unit) : M unit :=
  match currentTarget e with
  | Some el => host (method el (pointerId e))
  | None => throw TypeError
  end.

Section Component.

Variable props : Props.

(** The reactive state right after [setup]: lines 31-38. *)
Definition initialState : State :=
  {| viewportRef := None;
     pan := {| x := 0; y := 0 |};
     zoom := initialZoom props;
     dragging := false;
     last := {| x := 0; y := 0 |};
     cursorStyle := "cursor-default" |}.

Local Open Scope handler_scope.

Definition onPointerDown (e : PointerEvent) : M unit :=
  write (set_dragging true) ;;
  write (set_cursorStyle "cursor-move") ;;
  write (set_last {| x := clientX e; y := clientY e |}) ;;
  onTarget e setPointerCapture.

(** Line 56, [pan.value = { x: pan.value.x + dx, y: pan.value.y + dy }]:
    the only place a drag moves the pan. *)
Definition applyPan (dx dy : number) : M unit :=
  write (fun s => set_pan {| x := x (pan s) + dx; y := y (pan s) + dy |} s).

Definition onPointerMove (e : PointerEvent) : M unit :=
  d <- read dragging ;;
  if negb d then ret tt
  else
    l <- read last ;;
    let dx := clientX e - x l in
    let dy := clientY e - y l in
    write (set_last {| x := clientX e; y := clientY e |}) ;;
    applyPan dx dy.

Definition onPointerUp (e : PointerEvent) : M unit :=
  write (set_dragging false) ;;
  write (set_cursorStyle "cursor-default") ;;
  try_catch (onTarget e releasePointerCapture).

(** Lines 76-87 of [onWheel] with the factor left open: zoom by [factor]
    about the viewport point [(cx, cy)]. *)
Definition applyZoomAt (cx cy factor : number) : M unit :=
  oldZoom <- read zoom ;;
  let newZoom := clamp (oldZoom * factor) (minZoom props) (maxZoom props) in
  p <- read pan ;;
  let worldX := (cx - x p) / oldZoom in
  let worldY := (cy - y p) / oldZoom in
  write (set_pan {| x := cx - worldX * newZoom; y := cy - worldY * newZoom |}) ;;
  write (set_zoom newZoom).

(** [e.deltaY > 0 ? 0.9 : 1.1] *)
Definition wheelFactor (e : WheelEvent) : number :=
  if Qlt_le_dec 0 (deltaY e) then 0.9 else 1.1.

(** [e.preventDefault()] only tells the host to skip its own scrolling;
    it reads and writes no ref and does not throw. *)
Definition onWheel (e : WheelEvent) : M unit :=
  v <- read viewportRef ;;
  match v with
  | None => ret tt
  | Some rect =>
      let cx := wheelX e - left rect in
      let cy := wheelY e - top rect in
      applyZoomAt cx cy (wheelFactor e)
  end.

(** The six values of [cssVars], each a length in [px]. *)
Record CssVars : Type := mkCssVars {
  cellz : number;
  bigz : number;
  offx : number;
  offy : number;
  offxb : number;
  offyb : number
}.

Definition cssVars (s : State) : CssVars :=
  let cellZ := cellSize props * zoom s in
  let bigZ := bigCellSize props * zoom s in
  {| cellz := cellZ;
     bigz := bigZ;
     offx := mod_ (x (pan s)) cellZ;
     offy := mod_ (y (pan s)) cellZ;
     offxb := mod_ (x (pan s)) bigZ;
     offyb := mod_ (y (pan s)) bigZ |}.

(** ** Events, as the template binds them *)

Inductive Event : Type :=
| PointerDown (e : PointerEvent)
| PointerMove (e : PointerEvent)
| PointerUp (e : PointerEvent)
| PointerCancel (e : PointerEvent)
| Wheel (e : WheelEvent).

Definition dispatch (ev : Event) : M unit :=
  match ev with
  | PointerDown e => onPointerDown e
  | PointerMove e => onPointerMove e
  | PointerUp e => onPointerUp e
  | PointerCancel e => onPointerUp e
  | Wheel e => onWheel e
  end.

(** The state after one event.  A handler that throws has still made its
    writes, and the host goes on to deliver the next event. *)
Definition step (s : State) (ev : Event) : State := fst (dispatch ev s).

Definition run (evs : list Event) (s : State) : State := fold_left step evs s.

(** The states after each event of a sequence, in order. *)
Fixpoint trace (evs : list Event) (s : State) : list State :=
  match evs with
  | [] => []
  | ev :: evs' => step s ev :: trace evs' (step s ev)
  end.

End Component.

(** The whole of [<script setup>]: [withDefaults(defineProps())] fills in
    the defaults and the [ref] calls allocate the state.  No statement of
    the block throws and none inspects a prop's value, so the completion is
    always [Normal]. *)
Definition setup (r : RawProps) : completion (Props * State) :=
  let props := withDefaults r in
  Normal (props, initialState props).

(** Mounting binds [viewportRef] to the root element. *)
Definition mount (rect : DOMRect) (s : State) : State :=
  set_viewportRef (Some rect) s.

(** ** Vocabulary of the specification *)

(** A configuration the specification calls valid: positive cell sizes and
    [0 < minZoom <= maxZoom]. *)
Definition validConfig (props : Props) : Prop :=
  0 < cellSize props /\ 0 < bigCellSize props /\
  0 < minZoom props /\ minZoom props <= maxZoom props.

Definition zoomInBounds (props : Props) (s : State) : Prop :=
  minZoom props <= zoom s /\ zoom s <= maxZoom props.

(** The world point shown at screen point [p]: [(p - pan) / zoom]. *)
Definition worldAt (s : State) (p : Point) : Point :=
  {| x := (x p - x (pan s)) / zoom s; y := (y p - y (pan s)) / zoom s |}.


(** The viewport point under the cursor of a wheel event: lines 72-74. *)
Definition cursorIn (rect : DOMRect) (e : WheelEvent) : Point :=
  {| x := wheelX e - left rect; y := wheelY e - top rect |}.

(** ** The item layer

    [worldTransform] (lines 90-92) is the CSS value
    [translate3d(<pan.x>px, <pan.y>px, 0) scale(<zoom>)]; it is kept here
    as the three numbers the text is printed from. *)
Record Transform : Type := mkTransform {
  translateX : number;
  translateY : number;
  scale : number
}.

Definition worldTransform (s : State) : Transform :=
  {| translateX := x (pan s); translateY := y (pan s); scale := zoom s |}.

(** Where a layer with [transformOrigin: '0 0'] (line 132) shows the point
    it lays out at [p]: the list [translate3d(..) scale(..)] scales first
    and translates after. *)
Definition applyTransform (t : Transform) (p : Point) : Point :=
  {| x := translateX t + scale t * x p; y := translateY t + scale t * y p |}.

(** The viewport point at which the world point [w] is drawn. *)
Definition screenAt (s : State) (w : Point) : Point :=
  applyTransform (worldTransform s) w.

(** An item is laid out at [left: it.x px; top: it.y px] (line 138) and
    centred on that point. *)
Definition itemScreen (s : State) (it : MapItem.t) : Point :=
  screenAt s {| x := MapItem.x it; y := MapItem.y it |}.

(** ** More vocabulary *)

(** Where a pointer event happened, in client coordinates. *)
Definition eventPoint (e : PointerEvent) : Point :=
  {| x := clientX e; y := clientY e |}.

(** The cursor class says whether a drag is on. *)
Definition cursorTracksDrag (s : State) : Prop :=
  cursorStyle s = if dragging s then "cursor-move"%string else "cursor-default"%string.

(** ** Sample configurations, states and elements *)

(** The component with every prop left to its default, mounted at the
    window's origin. *)
Definition defaultProps : Props :=
  withDefaults (mkRawProps [] None None None None None None).

Definition origin : DOMRect := {| left := 0; top := 0 |}.

Definition mountedDefault : State := mount origin (initialState defaultProps).



(** The default component panned to [(-5, 70)] and zoomed to [1.5]. *)
Definition pannedDefault : State :=
  set_zoom 1.5 (set_pan {| x := -(5); y := 70 |} mountedDefault).

(** The same, in the middle of a drag that began at [(10, 10)]. *)
Definition draggingDefault : State :=
  fst (onPointerDown (mkPointerEvent 10 10 1 None) pannedDefault).

(** A parent that asks for an initial zoom of 5 and leaves the bounds at
    their defaults, [0.25] and [3]. *)
Definition oversizedInitialZoom : RawProps :=
  mkRawProps [] None None None None (Some 5) None.

(** A parent that passes a zero fine cell, a negative coarse cell and a
    [minZoom] of 5 above the default [maxZoom] of 3. *)
Definition invalidConfig : RawProps :=
  mkRawProps [] (Some 0) (Some (-(160))) (Some 5) None None None.

(** An element whose capture calls succeed, and one whose calls throw. *)
Definition calmElement : HTMLElement :=
  {| setPointerCapture := fun _ => Normal tt;
     releasePointerCapture := fun _ => Normal tt |}.

Definition faultyElement : HTMLElement :=
  {| setPointerCapture := fun _ => Throw (DOMException "NotFoundError");
     releasePointerCapture := fun _ => Throw (DOMException "NotFoundError") |}.

(** ** The handlers on binary64

    The same source lines with a number taken as the binary64 value it
    is: [+], [-], [*] and [/] round to nearest, ties to even.  The calls
    that capture and release the pointer write no ref, so this replay of
    the refs leaves them out. *)

Module Binary64.

Local Open Scope float_scope.

Definition number := float.

(** [Math.max] and [Math.min] of two numbers: [NaN] if either is, and
    [+0] counted above [-0]. *)
Definition Math_max (a b : number) : number :=
  if is_nan a || is_nan b then nan
  else if a <? b then b
  else if b <? a then a
  else if get_sign a then b else a.

Definition Math_min (a b : number) : number :=
  if is_nan a || is_nan b then nan
  else if a <? b then a
  else if b <? a then b
  else if get_sign a then a else b.

(** [const clamp = (v, a, b) => Math.max(a, Math.min(b, v))] *)
Definition clamp (v a b : number) : number := Math_max a (Math_min b v).

Record Point : Type := mkPoint { x : number; y : number }.

(** The numeric props, after [withDefaults]. *)
Record Props : Type := mkProps {
  cellSize : number;
  bigCellSize : number;
  minZoom : number;
  maxZoom : number;
  initialZoom : number
}.

Definition defaultProps : Props :=
  {| cellSize := 32; bigCellSize := 160;
     minZoom := 0.25; maxZoom := 3; initialZoom := 1 |}.

Record DOMRect : Type := mkRect { left : number; top : number }.

Record PointerEvent : Type := mkPointerEvent {
  clientX : number;
  clientY : number
}.

Record WheelEvent : Type := mkWheelEvent {
  wheelX : number;      (* e.clientX *)
  wheelY : number;      (* e.clientY *)
  deltaY : number
}.

Record State : Type := mkState {
  viewportRef : option DOMRect;
  pan : Point;
  zoom : number;
  dragging : bool;
  last : Point;
  cursorStyle : string
}.

(** Lines 31-38. *)
Definition initialState (props : Props) : State :=
  {| viewportRef := None;
     pan := {| x := 0; y := 0 |};
     zoom := initialZoom props;
     dragging := false;
     last := {| x := 0; y := 0 |};
     cursorStyle := "cursor-default" |}.

Definition mount (rect : DOMRect) (s : State) : State :=
  mkState (Some rect) (pan s) (zoom s) (dragging s) (last s) (cursorStyle s).

(** Lines 44-49, the writes. *)
Definition onPointerDown (e : PointerEvent) (s : State) : State :=
  {| viewportRef := viewportRef s;
     pan := pan s;
     zoom := zoom s;
     dragging := true;
     last := {| x := clientX e; y := clientY e |};
     cursorStyle := "cursor-move" |}.

(** Line 56. *)
Definition applyPan (dx dy : number) (s : State) : State :=
  mkState (viewportRef s) {| x := x (pan s) + dx; y := y (pan s) + dy |}
          (zoom s) (dragging s) (last s) (cursorStyle s).

(** Lines 51-57. *)
Definition onPointerMove (e : PointerEvent) (s : State) : State :=
  if negb (dragging s) then s
  else
    let dx := clientX e - x (last s) in
    let dy := clientY e - y (last s) in
    applyPan dx dy
      (mkState (viewportRef s) (pan s) (zoom s) (dragging s)
               {| x := clientX e; y := clientY e |} (cursorStyle s)).

(** Lines 59-65, the writes. *)
Definition onPointerUp (s : State) : State :=
  mkState (viewportRef s) (pan s) (zoom s) false (last s) "cursor-default".

(** Lines 76-87 with the factor left open. *)
Definition applyZoomAt (props : Props) (cx cy factor : number) (s : State) : State :=
  let oldZoom := zoom s in
  let newZoom := clamp (oldZoom * factor) (minZoom props) (maxZoom props) in
  let worldX := (cx - x (pan s)) / oldZoom in
  let worldY := (cy - y (pan s)) / oldZoom in
  mkState (viewportRef s)
          {| x := cx - worldX * newZoom; y := cy - worldY * newZoom |}
          newZoom (dragging s) (last s) (cursorStyle s).

(** [e.deltaY > 0 ? 0.9 : 1.1] *)
Definition wheelFactor (e : WheelEvent) : number :=
  if 0 <? deltaY e then 0.9 else 1.1.

(** Lines 68-88. *)
Definition onWheel (props : Props) (e : WheelEvent) (s : State) : State :=
  match viewportRef s with
  | None => s
  | Some rect =>
      let cx := wheelX e - left rect in
      let cy := wheelY e - top rect in
      applyZoomAt props cx cy (wheelFactor e) s
  end.

Inductive Event : Type :=
| PointerDown (e : PointerEvent)
| PointerMove (e : PointerEvent)
| PointerUp
| PointerCancel
| Wheel (e : WheelEvent).

Definition step (props : Props) (s : State) (ev : Event) : State :=
  match ev with
  | PointerDown e => onPointerDown e s
  | PointerMove e => onPointerMove e s
  | PointerUp => onPointerUp s
  | PointerCancel => onPointerUp s
  | Wheel e => onWheel props e s
  end.

Definition run (props : Props) (evs : list Event) (s : State) : State :=
  fold_left (step props) evs s.

(** The default component, mounted at the window's origin. *)
Definition mountedDefault : State :=
  mount {| left := 0; top := 0 |} (initialState defaultProps).


End Binary64.

(** ** Arithmetic of [clamp] and [mod] *)

Lemma clamp_bounds (v a b : number) :
  a <= b -> a <= clamp v a b /\ clamp v a b <= b.
Proof.
  intros Hab. unfold clamp.
  destruct (Q.max_spec a (Qmin b v)) as [[? ->] | [? ->]];
    destruct (Q.min_spec b v) as [[? E] | [? E]]; rewrite ?E in *; lra.
Qed.

Lemma clamp_inside (v a b : number) :
  a <= v -> v <= b -> clamp v a b == v.
Proof.
  intros Ha Hb. unfold clamp.
  destruct (Q.max_spec a (Qmin b v)) as [[? ->] | [? ->]];
    destruct (Q.min_spec b v) as [[? E] | [? E]]; rewrite ?E in *; lra.
Qed.



(** Truncation stays within one unit of its argument, on the side of zero. *)
Lemma Qtrunc_neg (q : number) :
  q < 0 -> q <= inject_Z (Qtrunc q) /\ inject_Z (Qtrunc q) < q + 1.
Proof.
  intros Hq. unfold Qtrunc. destruct (Qlt_le_dec q 0) as [_ | H]; [| lra].
  split; [apply Qle_ceiling |].
  pose proof (Qceiling_lt q) as Hc.
  unfold Z.sub in Hc. rewrite inject_Z_plus in Hc.
  rewrite inject_Z_opp in Hc. change (inject_Z 1) with 1 in Hc. lra.
Qed.

Lemma Qtrunc_nonneg (q : number) :
  0 <= q -> inject_Z (Qtrunc q) <= q /\ q < inject_Z (Qtrunc q) + 1.
Proof.
  intros Hq. unfold Qtrunc. destruct (Qlt_le_dec q 0) as [H | _]; [lra |].
  split; [apply Qfloor_le |].
  pose proof (Qlt_floor q) as Hf. rewrite inject_Z_plus in Hf. exact Hf.
Qed.

Lemma pos_nonzero (m : number) : 0 < m -> ~ m == 0.
Proof. intros H E. rewrite E in H. lra. Qed.

(** [n % m] written on the quotient: [m * (n/m - trunc (n/m))]. *)
Lemma js_rem_quotient (n m : number) :
  ~ m == 0 -> n %% m == m * (n / m - inject_Z (Qtrunc (n / m))).
Proof. intros Hm. unfold js_rem. field. exact Hm. Qed.

Lemma js_rem_nonneg (n m : number) :
  0 < m -> 0 <= n -> 0 <= n %% m /\ n %% m < m.
Proof.
  intros Hm Hn.
  assert (Hq : 0 <= n / m).
  { apply Qle_shift_div_l; [exact Hm | lra]. }
  destruct (Qtrunc_nonneg _ Hq) as [H1 H2].
  rewrite js_rem_quotient by (apply pos_nonzero; exact Hm).
  set (d := n / m - inject_Z (Qtrunc (n / m))) in *.
  assert (0 <= d) by (unfold d; lra).
  assert (d < 1) by (unfold d; lra).
  split; nra.
Qed.

Lemma js_rem_neg (n m : number) :
  0 < m -> n < 0 -> - m < n %% m /\ n %% m <= 0.
Proof.
  intros Hm Hn.
  assert (Hq : n / m < 0).
  { apply Qlt_shift_div_r; [exact Hm | lra]. }
  destruct (Qtrunc_neg _ Hq) as [H1 H2].
  rewrite js_rem_quotient by (apply pos_nonzero; exact Hm).
  set (d := n / m - inject_Z (Qtrunc (n / m))) in *.
  assert (d <= 0) by (unfold d; lra).
  assert (-(1) < d) by (unfold d; lra).
  split; nra.
Qed.

(** The remainder is always strictly inside [(-m, m)]. *)
Lemma js_rem_bounds (n m : number) :
  0 < m -> - m < n %% m /\ n %% m < m.
Proof.
  intros Hm. destruct (Qlt_le_dec n 0) as [Hn | Hn].
  - destruct (js_rem_neg n m Hm Hn). split; lra.
  - destruct (js_rem_nonneg n m Hm Hn). split; lra.
Qed.

Lemma mod_bounds (n m : number) :
  0 < m -> 0 <= mod_ n m /\ mod_ n m < m.
Proof.
  intros Hm. unfold mod_.
  destruct (js_rem_bounds n m Hm).
  apply js_rem_nonneg; lra.
Qed.

(** ** What one handler call does to the state *)

Lemma applyZoomAt_run (props : Props) (cx cy f : number) (s : State) :
  applyZoomAt props cx cy f s =
  (let newZoom := clamp (zoom s * f) (minZoom props) (maxZoom props) in
   {| viewportRef := viewportRef s;
      pan := {| x := cx - (cx - x (pan s)) / zoom s * newZoom;
                y := cy - (cy - y (pan s)) / zoom s * newZoom |};
      zoom := newZoom;
      dragging := dragging s;
      last := last s;
      cursorStyle := cursorStyle s |}, Normal tt).
Proof. reflexivity. Qed.

Lemma onWheel_mounted (props : Props) (e : WheelEvent) (s : State) (rect : DOMRect) :
  viewportRef s = Some rect ->
  onWheel props e s =
  applyZoomAt props (x (cursorIn rect e)) (y (cursorIn rect e)) (wheelFactor e) s.
Proof. intros H. unfold onWheel, bind, read. rewrite H. reflexivity. Qed.

Lemma onWheel_unmounted (props : Props) (e : WheelEvent) (s : State) :
  viewportRef s = None -> onWheel props e s = (s, Normal tt).
Proof. intros H. unfold onWheel, bind, read. rewrite H. reflexivity. Qed.

Lemma wheelFactor_cases (e : WheelEvent) :
  (0 < deltaY e /\ wheelFactor e = 0.9) \/ (deltaY e <= 0 /\ wheelFactor e = 1.1).
Proof. unfold wheelFactor. destruct (Qlt_le_dec 0 (deltaY e)); auto. Qed.

(** Anchoring needs only that neither zoom is zero; whether the clamp bit
    plays no part. *)
Lemma applyZoomAt_anchors (props : Props) (p : Point) (f : number) (s : State) :
  ~ zoom s == 0 ->
  ~ clamp (zoom s * f) (minZoom props) (maxZoom props) == 0 ->
  Point_eq (worldAt (fst (applyZoomAt props (x p) (y p) f s)) p) (worldAt s p).
Proof.
  intros Hz Hn. rewrite applyZoomAt_run. unfold worldAt, Point_eq. cbn.
  set (nz := clamp _ _ _) in *.
  split; field; split; assumption.
Qed.

Lemma step_wheel_viewportRef (props : Props) (e : WheelEvent) (s : State) :
  viewportRef (step props s (Wheel e)) = viewportRef s.
Proof.
  unfold step, dispatch. destruct (viewportRef s) as [rect |] eqn:H.
  - rewrite (onWheel_mounted props e s rect H), applyZoomAt_run. exact H.
  - rewrite (onWheel_unmounted props e s H). exact H.
Qed.

Lemma step_wheel_zoom (props : Props) (e : WheelEvent) (s : State) (rect : DOMRect) :
  viewportRef s = Some rect ->
  zoom (step props s (Wheel e)) =
  clamp (zoom s * wheelFactor e) (minZoom props) (maxZoom props).
Proof.
  intros H. unfold step, dispatch.
  rewrite (onWheel_mounted props e s rect H), applyZoomAt_run. reflexivity.
Qed.

Lemma trace_length (props : Props) (evs : list Event) (s : State) :
  List.length (trace props evs s) = List.length evs.
Proof.
  revert s. induction evs as [| ev evs IH]; intros s; cbn; [| rewrite IH]; reflexivity.
Qed.

(** ** Pointer handlers, one call at a time *)

Lemma onPointerDown_state (e : PointerEvent) (s : State) :
  fst (onPointerDown e s) =
  {| viewportRef := viewportRef s;
     pan := pan s;
     zoom := zoom s;
     dragging := true;
     last := {| x := clientX e; y := clientY e |};
     cursorStyle := "cursor-move" |}.
Proof.
  unfold onPointerDown, onTarget, bind, write, host, throw. cbn.
  destruct (currentTarget e) as [el |]; [| reflexivity].
  destruct (setPointerCapture el (pointerId e)); reflexivity.
Qed.

(** [onPointerDown] completes as its call to [setPointerCapture] does:
    nothing catches a fault of the capture. *)
Lemma onPointerDown_completion (e : PointerEvent) (s : State) :
  snd (onPointerDown e s) =
  match currentTarget e with
  | Some el => setPointerCapture el (pointerId e)
  | None => Throw TypeError
  end.
Proof.
  unfold onPointerDown, onTarget, bind, write, host, throw. cbn.
  destruct (currentTarget e) as [el |]; [| reflexivity].
  destruct (setPointerCapture el (pointerId e)) as [[] | ?]; reflexivity.
Qed.

Lemma onPointerMove_idle (e : PointerEvent) (s : State) :
  dragging s = false -> onPointerMove e s = (s, Normal tt).
Proof. intros H. unfold onPointerMove, bind, read. rewrite H. reflexivity. Qed.

Lemma onPointerMove_dragging (e : PointerEvent) (s : State) :
  dragging s = true ->
  onPointerMove e s =
  ({| viewportRef := viewportRef s;
      pan := {| x := x (pan s) + (clientX e - x (last s));
                y := y (pan s) + (clientY e - y (last s)) |};
      zoom := zoom s;
      dragging := true;
      last := {| x := clientX e; y := clientY e |};
      cursorStyle := cursorStyle s |}, Normal tt).
Proof.
  intros H. unfold onPointerMove, bind, read. rewrite H. cbn.
  unfold set_pan, set_last. cbn. rewrite H. reflexivity.
Qed.

Lemma onPointerUp_run (e : PointerEvent) (s : State) :
  onPointerUp e s =
  ({| viewportRef := viewportRef s;
      pan := pan s;
      zoom := zoom s;
      dragging := false;
      last := last s;
      cursorStyle := "cursor-default" |}, Normal tt).
Proof.
  unfold onPointerUp, try_catch, onTarget, bind, write, host, throw. cbn.
  destruct (currentTarget e) as [el |]; [| reflexivity].
  destruct (releasePointerCapture el (pointerId e)) as [[] | ?]; reflexivity.
Qed.


(** No handler takes a zoom that is in bounds out of bounds: the pointer
    handlers never write [zoom], and [onWheel] writes a clamped value or
    returns early. *)
Lemma step_zoomInBounds (props : Props) (ev : Event) (s : State) :
  minZoom props <= maxZoom props ->
  zoomInBounds props s -> zoomInBounds props (step props s ev).
Proof.
  intros Hcfg Hs. unfold step. destruct ev as [e | e | e | e | e]; cbn [dispatch].
  - rewrite onPointerDown_state. exact Hs.
  - destruct (dragging s) eqn:Hd.
    + rewrite (onPointerMove_dragging e s Hd). exact Hs.
    + rewrite (onPointerMove_idle e s Hd). exact Hs.
  - rewrite onPointerUp_run. exact Hs.
  - rewrite onPointerUp_run. exact Hs.
  - destruct (viewportRef s) as [rect |] eqn:Hv.
    + rewrite (onWheel_mounted props e s rect Hv), applyZoomAt_run.
      unfold zoomInBounds. cbn. apply clamp_bounds. exact Hcfg.
    + rewrite (onWheel_unmounted props e s Hv). exact Hs.
Qed.

(** ** Zooming against a bound *)

Lemma Point_eq_refl (p : Point) : Point_eq p p.
Proof. split; reflexivity. Qed.

Lemma Point_eq_trans (p q r : Point) : Point_eq p q -> Point_eq q r -> Point_eq p r.
Proof. intros [H1 H2] [H3 H4]. split; etransitivity; eassumption. Qed.







(** ** Properties of the specification *)

(** C1 (zoom anchoring law).  From a state with positive zoom, zooming by a
    positive factor [f] about screen point [p] with [zoom * f] inside
    [[minZoom, maxZoom]] sets the pan to [p - worldPoint * newZoom], where
    [worldPoint = (p - pan) / oldZoom], sets the zoom to [zoom * f], and
    leaves the world point under [p] where it was: [(p - pan') / newZoom]
    equals [(p - pan) / oldZoom].  The same holds of [onWheel] on a mounted
    viewport, with [p] the cursor's viewport point and [f] the event's
    factor. *)
Theorem C1_zoom_anchoring
  (props : Props) (s : State) (p : Point) (f : number)
  (rect : DOMRect) (e : WheelEvent)
  (Hzoom : 0 < zoom s) (Hf : 0 < f)
  (Hlo : minZoom props <= zoom s * f) (Hhi : zoom s * f <= maxZoom props) :
  (let s' := fst (applyZoomAt props (x p) (y p) f s) in
   let world := worldAt s p in
   pan s' = {| x := x p - x world * zoom s'; y := y p - y world * zoom s' |} /\
   zoom s' == zoom s * f /\ Point_eq (worldAt s' p) world) /\
  (viewportRef s = Some rect -> wheelFactor e = f ->
   let s' := step props s (Wheel e) in
   zoom s' == zoom s * f /\
   Point_eq (worldAt s' (cursorIn rect e)) (worldAt s (cursorIn rect e))).
Proof.
  assert (Hn : clamp (zoom s * f) (minZoom props) (maxZoom props) == zoom s * f)
    by (apply clamp_inside; assumption).
  assert (Hpos : 0 < zoom s * f) by nra.
  assert (Hnz : ~ clamp (zoom s * f) (minZoom props) (maxZoom props) == 0)
    by (rewrite Hn; apply pos_nonzero; exact Hpos).
  assert (Hz : ~ zoom s == 0) by (apply pos_nonzero; exact Hzoom).
  split.
  - cbv zeta. split; [reflexivity |]. split.
    + rewrite applyZoomAt_run. exact Hn.
    + apply applyZoomAt_anchors; assumption.
  - intros Hv Hw. cbv zeta. unfold step, dispatch.
    rewrite (onWheel_mounted props e s rect Hv), Hw. split.
    + rewrite applyZoomAt_run. exact Hn.
    + apply applyZoomAt_anchors; assumption.
Qed.

(** The specification's example: zoom in one tick at [(100, 100)] from
    [pan = (0, 0)], [zoom = 1]. *)
Lemma C1_zoom_anchoring_witness :
  let s := mountedDefault in
  let p := {| x := 100; y := 100 |} in
  let e := {| wheelX := 100; wheelY := 100; deltaY := -(1) |} in
  (0 < zoom s /\ 0 < 1.1 /\
   minZoom defaultProps <= zoom s * 1.1 /\ zoom s * 1.1 <= maxZoom defaultProps) /\
  (let s' := fst (applyZoomAt defaultProps (x p) (y p) 1.1 s) in
   let world := worldAt s p in
   pan s' = {| x := x p - x world * zoom s'; y := y p - y world * zoom s' |} /\
   zoom s' == zoom s * 1.1 /\ Point_eq (worldAt s' p) world) /\
  (let s' := step defaultProps s (Wheel e) in
   zoom s' == zoom s * 1.1 /\
   Point_eq (worldAt s' (cursorIn origin e)) (worldAt s (cursorIn origin e))).
Proof.
  cbv zeta. split.
  - repeat split; vm_compute; congruence.
  - destruct (C1_zoom_anchoring defaultProps mountedDefault
                {| x := 100; y := 100 |} 1.1 origin
                {| wheelX := 100; wheelY := 100; deltaY := -(1) |})
      as [Hgen Hwheel]; try (vm_compute; congruence).
    split; [exact Hgen | apply Hwheel; reflexivity].
Defined.

(** The specification's worked example, run: one zoom-in tick at
    [(100, 100)] from [pan = (0, 0)], [zoom = 1] gives [zoom = 1.1] and
    [pan = (-10, -10)]. *)
Example zoom_in_at_100_100 :
  let s' := step defaultProps mountedDefault
              (Wheel {| wheelX := 100; wheelY := 100; deltaY := -(1) |}) in
  zoom s' == 1.1 /\ Point_eq (pan s') {| x := -(10); y := -(10) |} /\
  Point_eq (worldAt s' {| x := 100; y := 100 |}) {| x := 100; y := 100 |}.
Proof. repeat split. Qed.

(** C2 (zoom bound invariant).  With [minZoom <= maxZoom] and the viewport
    mounted, after each call of any sequence of [onWheel] calls, from any
    state whatever, the zoom lies in [[minZoom, maxZoom]].  Once the zoom
    is in bounds it stays there after each event of any sequence of
    events, of any kind, mounted or not. *)
Theorem C2_zoom_bound_invariant
  (props : Props) (ws : list WheelEvent) (evs : list Event)
  (s : State) (rect : DOMRect)
  (Hcfg : minZoom props <= maxZoom props)
  (Hmounted : viewportRef s = Some rect) :
  List.length (trace props (map Wheel ws) s) = List.length ws /\
  Forall (zoomInBounds props) (trace props (map Wheel ws) s) /\
  (zoomInBounds props s -> Forall (zoomInBounds props) (trace props evs s)).
Proof.
  split; [rewrite trace_length; apply length_map |]. split.
  - revert s Hmounted. induction ws as [| w ws IH]; intros s Hmounted; cbn.
    + constructor.
    + constructor.
      * unfold zoomInBounds. rewrite (step_wheel_zoom props w s rect Hmounted).
        apply clamp_bounds. exact Hcfg.
      * apply IH. rewrite step_wheel_viewportRef. exact Hmounted.
  - clear Hmounted. revert s. induction evs as [| ev evs IH]; intros s Hs; cbn.
    + constructor.
    + pose proof (step_zoomInBounds props ev s Hcfg Hs) as Hs'.
      constructor; [exact Hs' | apply IH; exact Hs'].
Qed.

Lemma C2_zoom_bound_invariant_witness :
  let ws := [ {| wheelX := 10; wheelY := 20; deltaY := -(1) |};
              {| wheelX := 10; wheelY := 20; deltaY := 1 |} ] in
  let evs := [ PointerDown (mkPointerEvent 50 50 1 None);
               Wheel {| wheelX := 10; wheelY := 20; deltaY := -(1) |};
               PointerMove (mkPointerEvent 70 65 1 None);
               PointerCancel (mkPointerEvent 70 65 1 None) ] in
  (minZoom defaultProps <= maxZoom defaultProps /\
   viewportRef mountedDefault = Some origin /\
   zoomInBounds defaultProps mountedDefault) /\
  List.length (trace defaultProps (map Wheel ws) mountedDefault) = List.length ws /\
  Forall (zoomInBounds defaultProps) (trace defaultProps (map Wheel ws) mountedDefault) /\
  Forall (zoomInBounds defaultProps) (trace defaultProps evs mountedDefault).
Proof.
  cbv zeta.
  assert (Hin : zoomInBounds defaultProps mountedDefault)
    by (split; vm_compute; congruence).
  split.
  - split; [vm_compute; congruence | split; [reflexivity | exact Hin]].
  - destruct (C2_zoom_bound_invariant defaultProps
                [ {| wheelX := 10; wheelY := 20; deltaY := -(1) |};
                  {| wheelX := 10; wheelY := 20; deltaY := 1 |} ]
                [ PointerDown (mkPointerEvent 50 50 1 None);
                  Wheel {| wheelX := 10; wheelY := 20; deltaY := -(1) |};
                  PointerMove (mkPointerEvent 70 65 1 None);
                  PointerCancel (mkPointerEvent 70 65 1 None) ]
                mountedDefault origin)
      as (Hlen & Hwheel & Hall); [vm_compute; congruence | reflexivity |].
    split; [exact Hlen | split; [exact Hwheel | apply Hall; exact Hin]].
Defined.

(** C3, as stated, fails: with [initialZoom = 5] and the default bounds the
    state is created with zoom 5, not with the clamped value 3, and 5 is
    outside [[0.25, 3]]. *)
Lemma C3_initial_zoom_not_clamped :
  let props := withDefaults oversizedInitialZoom in
  let s := mount origin (initialState props) in
  setup oversizedInitialZoom = Normal (props, initialState props) /\
  zoom s == 5 /\
  clamp (initialZoom props) (minZoom props) (maxZoom props) == 3 /\
  ~ zoom s == clamp (initialZoom props) (minZoom props) (maxZoom props) /\
  ~ zoomInBounds props s.
Proof.
  cbv zeta. split; [reflexivity |].
  split; [reflexivity |]. split; [reflexivity |].
  split; [vm_compute; congruence |].
  intros [_ H]. vm_compute in H. congruence.
Qed.

(** C3 (amended).  Setup always completes and creates the state with
    [pan = {0, 0}] and [zoom = initialZoom] as given, with no clamping;
    mounting changes neither.  The initial zoom is therefore inside
    [[minZoom, maxZoom]] exactly when [initialZoom] is. *)
Theorem C3_initial_state (r : RawProps) (rect : DOMRect) :
  exists (props : Props) (s : State),
    setup r = Normal (props, s) /\ props = withDefaults r /\
    pan s = {| x := 0; y := 0 |} /\ zoom s = initialZoom props /\
    pan (mount rect s) = {| x := 0; y := 0 |} /\
    zoom (mount rect s) = initialZoom props /\
    (zoomInBounds props (mount rect s) <->
     minZoom props <= initialZoom props /\ initialZoom props <= maxZoom props).
Proof.
  exists (withDefaults r), (initialState (withDefaults r)).
  do 6 (split; [reflexivity |]).
  unfold zoomInBounds. cbn. tauto.
Qed.

(** C4 (grid phase normalization).  For a pitch [P > 0] and any
    [pan_axis], negative ones included, [mod pan_axis P] lies in [[0, P)];
    [mod (-5) 32] is 27; and [cssVars] computes each of its four offsets
    by that same [mod], of [pan.x] and of [pan.y], against the fine pitch
    [cellSize * zoom] and against the coarse pitch [bigCellSize * zoom], so
    that with positive cell sizes and zoom each offset lies in
    [[0, pitch)]. *)
Theorem C4_grid_phase_normalization
  (props : Props) (s : State) (pan_axis P : number)
  (HP : 0 < P)
  (Hcell : 0 < cellSize props) (Hbig : 0 < bigCellSize props)
  (Hzoom : 0 < zoom s) :
  (0 <= mod_ pan_axis P /\ mod_ pan_axis P < P) /\
  mod_ (-5) 32 == 27 /\
  (let v := cssVars props s in
   cellz v = cellSize props * zoom s /\
   bigz v = bigCellSize props * zoom s /\
   offx v = mod_ (x (pan s)) (cellz v) /\
   offy v = mod_ (y (pan s)) (cellz v) /\
   offxb v = mod_ (x (pan s)) (bigz v) /\
   offyb v = mod_ (y (pan s)) (bigz v) /\
   (0 <= offx v /\ offx v < cellz v) /\
   (0 <= offy v /\ offy v < cellz v) /\
   (0 <= offxb v /\ offxb v < bigz v) /\
   (0 <= offyb v /\ offyb v < bigz v)).
Proof.
  split; [apply mod_bounds; exact HP |].
  split; [reflexivity |].
  cbv zeta. unfold cssVars. cbn [cellz bigz offx offy offxb offyb].
  assert (0 < cellSize props * zoom s) by nra.
  assert (0 < bigCellSize props * zoom s) by nra.
  repeat match goal with |- _ /\ _ => split end;
    try reflexivity; apply mod_bounds; assumption.
Qed.

Lemma C4_grid_phase_normalization_witness :
  (0 < 32 /\ 0 < cellSize defaultProps /\ 0 < bigCellSize defaultProps /\
   0 < zoom mountedDefault) /\
  (0 <= mod_ (-5) 32 /\ mod_ (-5) 32 < 32) /\
  mod_ (-5) 32 == 27 /\
  (let v := cssVars defaultProps mountedDefault in
   cellz v = cellSize defaultProps * zoom mountedDefault /\
   bigz v = bigCellSize defaultProps * zoom mountedDefault /\
   offx v = mod_ (x (pan mountedDefault)) (cellz v) /\
   offy v = mod_ (y (pan mountedDefault)) (cellz v) /\
   offxb v = mod_ (x (pan mountedDefault)) (bigz v) /\
   offyb v = mod_ (y (pan mountedDefault)) (bigz v) /\
   (0 <= offx v /\ offx v < cellz v) /\
   (0 <= offy v /\ offy v < cellz v) /\
   (0 <= offxb v /\ offxb v < bigz v) /\
   (0 <= offyb v /\ offyb v < bigz v)).
Proof.
  split.
  - repeat split; vm_compute; congruence.
  - apply (C4_grid_phase_normalization defaultProps mountedDefault (-5) 32);
      vm_compute; congruence.
Defined.




(** C6 (drag round-trip and gesture state machine).  From an idle state,
    pointer-down at (50, 50), pointer-move to (70, 65), pointer-up: the pan
    has grown by (20, 15) after the move and is the same after the up, so
    the delta is applied once; zoom is untouched and dragging is off again.
    A pointer-move that arrives while not dragging, whether before any
    pointer-down or after the pointer-up, returns the state it was given. *)
Theorem C6_drag_round_trip
  (props : Props) (s : State) (id1 id2 : Z) (t1 t2 : option HTMLElement)
  (up stray : PointerEvent)
  (Hidle : dragging s = false) :
  let down := PointerDown (mkPointerEvent 50 50 id1 t1) in
  let move := PointerMove (mkPointerEvent 70 65 id2 t2) in
  let moved := {| x := x (pan s) + 20; y := y (pan s) + 15 |} in
  let s3 := run props [down; move; PointerUp up] s in
  pan (run props [down; move] s) = moved /\
  pan s3 = moved /\ zoom s3 = zoom s /\ dragging s3 = false /\
  dispatch props (PointerMove stray) s3 = (s3, Normal tt) /\
  dispatch props (PointerMove stray) s = (s, Normal tt).
Proof.
  cbv zeta. unfold run. cbn [fold_left]. unfold step. cbn [dispatch].
  rewrite onPointerDown_state.
  rewrite onPointerMove_dragging by reflexivity.
  cbn [fst]. rewrite onPointerUp_run.
  cbn [fst pan zoom dragging last x y clientX clientY].
  repeat split; try reflexivity.
  apply onPointerMove_idle. exact Hidle.
Qed.

Lemma C6_drag_round_trip_witness :
  let s := mountedDefault in
  let down := PointerDown (mkPointerEvent 50 50 1 (Some calmElement)) in
  let move := PointerMove (mkPointerEvent 70 65 1 (Some calmElement)) in
  let up := mkPointerEvent 70 65 1 (Some faultyElement) in
  let stray := mkPointerEvent 300 400 1 (Some calmElement) in
  let moved := {| x := x (pan s) + 20; y := y (pan s) + 15 |} in
  let s3 := run defaultProps [down; move; PointerUp up] s in
  dragging s = false /\
  pan (run defaultProps [down; move] s) = moved /\
  pan s3 = moved /\ zoom s3 = zoom s /\ dragging s3 = false /\
  dispatch defaultProps (PointerMove stray) s3 = (s3, Normal tt) /\
  dispatch defaultProps (PointerMove stray) s = (s, Normal tt).
Proof.
  cbv zeta. split; [reflexivity |].
  apply (C6_drag_round_trip defaultProps mountedDefault 1 1
           (Some calmElement) (Some calmElement)).
  reflexivity.
Defined.




(** C8, as stated, fails: setup accepts a configuration with
    [minZoom > maxZoom] and non-positive cell sizes, and completes
    normally with those values in place. *)
Lemma C8_invalid_config_is_accepted :
  let props := withDefaults invalidConfig in
  maxZoom props < minZoom props /\
  cellSize props <= 0 /\ bigCellSize props <= 0 /\
  ~ validConfig props /\
  setup invalidConfig = Normal (props, initialState props).
Proof.
  cbv zeta. repeat split; try (vm_compute; congruence).
  intros (H & _). vm_compute in H. congruence.
Qed.

(** C8 (amended).  Setup validates nothing: for every configuration, valid
    or not, it completes normally, with the props exactly as passed (or
    defaulted) and the state built from them. *)
Theorem C8_setup_never_fails (r : RawProps) :
  setup r = Normal (withDefaults r, initialState (withDefaults r)) /\
  (forall e : exn, setup r <> Throw e).
Proof. split; [reflexivity | intros e H; discriminate H]. Qed.

(** C9 (release faults are swallowed).  On pointer-up and on
    pointer-cancel alike, whatever the release of the pointer capture does,
    return or throw, and even with no target at all, the handler completes
    normally and leaves [dragging] false, the cursor style reset and the
    other refs as they were. *)
Theorem C9_release_fault_swallowed (props : Props) (e : PointerEvent) (s : State) :
  let s' := {| viewportRef := viewportRef s;
               pan := pan s;
               zoom := zoom s;
               dragging := false;
               last := last s;
               cursorStyle := "cursor-default" |} in
  dispatch props (PointerUp e) s = (s', Normal tt) /\
  dispatch props (PointerCancel e) s = (s', Normal tt) /\
  dragging (step props s (PointerUp e)) = false /\
  dragging (step props s (PointerCancel e)) = false.
Proof.
  cbv zeta. unfold step, dispatch. rewrite onPointerUp_run. repeat split.
Qed.

(** The release throws and the handler still returns, with dragging off. *)
Example pointerUp_with_faulty_release :
  let e := mkPointerEvent 70 65 1 (Some faultyElement) in
  let s := fst (onPointerDown (mkPointerEvent 50 50 1 (Some calmElement)) mountedDefault) in
  releasePointerCapture faultyElement (pointerId e) = Throw (DOMException "NotFoundError") /\
  dragging s = true /\
  snd (onPointerUp e s) = Normal tt /\ dragging (fst (onPointerUp e s)) = false.
Proof. repeat split. Qed.

(** C10 (pointer-down while dragging).  A pointer-down that arrives while
    dragging keeps [dragging] true, overwrites [last] with its own
    position and leaves pan and zoom alone; the next pointer-move then
    adds to the pan its distance from that pointer-down, not from the
    earlier [last]. *)
Theorem C10_pointer_down_while_dragging
  (props : Props) (s : State) (down move : PointerEvent)
  (Hdrag : dragging s = true) :
  let s1 := step props s (PointerDown down) in
  let s2 := step props s1 (PointerMove move) in
  dragging s1 = true /\
  last s1 = {| x := clientX down; y := clientY down |} /\
  pan s1 = pan s /\ zoom s1 = zoom s /\
  pan s2 = {| x := x (pan s) + (clientX move - clientX down);
              y := y (pan s) + (clientY move - clientY down) |} /\
  zoom s2 = zoom s.
Proof.
  cbv zeta. unfold step, dispatch. rewrite onPointerDown_state.
  rewrite onPointerMove_dragging by reflexivity. repeat split.
Qed.

Lemma C10_pointer_down_while_dragging_witness :
  let s := fst (onPointerDown (mkPointerEvent 50 50 1 (Some calmElement)) mountedDefault) in
  let down := mkPointerEvent 200 100 2 (Some faultyElement) in
  let move := mkPointerEvent 210 130 2 (Some calmElement) in
  let s1 := step defaultProps s (PointerDown down) in
  let s2 := step defaultProps s1 (PointerMove move) in
  dragging s = true /\
  dragging s1 = true /\
  last s1 = {| x := clientX down; y := clientY down |} /\
  pan s1 = pan s /\ zoom s1 = zoom s /\
  pan s2 = {| x := x (pan s) + (clientX move - clientX down);
              y := y (pan s) + (clientY move - clientY down) |} /\
  zoom s2 = zoom s.
Proof.
  cbv zeta. split; [reflexivity |].
  apply (C10_pointer_down_while_dragging defaultProps
           (fst (onPointerDown (mkPointerEvent 50 50 1 (Some calmElement)) mountedDefault))).
  reflexivity.
Defined.

(** * Further properties of the component *)

(** ** Screen and world *)

(** X5.  With a non-zero zoom, [screenAt] and [worldAt] are inverse to
    each other: the world point read back at the screen position of [w]
    is [w], and the world point under [p] is drawn at [p].  In particular
    an item is drawn at [p] exactly when the world point under [p] is the
    item's position. *)
Theorem X5_screen_world_round_trip
  (s : State) (w p : Point) (it : MapItem.t)
  (Hzoom : ~ zoom s == 0) :
  Point_eq (worldAt s (screenAt s w)) w /\
  Point_eq (screenAt s (worldAt s p)) p /\
  (Point_eq (itemScreen s it) p <->
   Point_eq (worldAt s p) {| x := MapItem.x it; y := MapItem.y it |}).
Proof.
  unfold itemScreen, worldAt, screenAt, applyTransform, worldTransform, Point_eq.
  cbn [x y translateX translateY scale].
  split; [split; field; exact Hzoom |].
  split; [split; field; exact Hzoom |].
  split; intros [Hx Hy]; split.
  - rewrite <- Hx. field. exact Hzoom.
  - rewrite <- Hy. field. exact Hzoom.
  - rewrite <- Hx. field. exact Hzoom.
  - rewrite <- Hy. field. exact Hzoom.
Qed.

Lemma X5_screen_world_round_trip_witness :
  let s := pannedDefault in
  let w := {| x := 64; y := -(32) |} in
  let p := {| x := 91; y := 22 |} in
  let it := MapItem.mk (MapItem.IdNumber 7) 64 (-(32)) None in
  ~ zoom s == 0 /\
  Point_eq (worldAt s (screenAt s w)) w /\
  Point_eq (screenAt s (worldAt s p)) p /\
  (Point_eq (itemScreen s it) p <->
   Point_eq (worldAt s p) {| x := MapItem.x it; y := MapItem.y it |}).
Proof.
  cbv zeta.
  assert (Hz : ~ zoom pannedDefault == 0)
    by (intros H; vm_compute in H; discriminate H).
  split; [exact Hz |].
  apply (X5_screen_world_round_trip pannedDefault). exact Hz.
Defined.

(** X6.  A drag carries every item with it.  A pointer-move while
    dragging shifts the screen position of every world point, hence of
    every item, by the pointer's own move, and leaves the zoom alone. *)
Theorem X6_drag_moves_items_rigidly
  (props : Props) (s : State) (e : PointerEvent) (w : Point) (it : MapItem.t)
  (Hdrag : dragging s = true) :
  let s' := step props s (PointerMove e) in
  let dx := clientX e - x (last s) in
  let dy := clientY e - y (last s) in
  zoom s' = zoom s /\
  Point_eq (screenAt s' w)
           {| x := x (screenAt s w) + dx; y := y (screenAt s w) + dy |} /\
  Point_eq (itemScreen s' it)
           {| x := x (itemScreen s it) + dx; y := y (itemScreen s it) + dy |}.
Proof.
  cbv zeta. unfold step, dispatch. rewrite (onPointerMove_dragging e s Hdrag).
  unfold itemScreen, screenAt, applyTransform, worldTransform, Point_eq.
  cbn [fst pan zoom x y translateX translateY scale].
  split; [reflexivity |]. repeat split; ring.
Qed.

Lemma X6_drag_moves_items_rigidly_witness :
  let s := draggingDefault in
  let e := mkPointerEvent 30 4 1 None in
  let w := {| x := 64; y := -(32) |} in
  let it := MapItem.mk (MapItem.IdString "pump") 64 (-(32)) (Some "Pump"%string) in
  let s' := step defaultProps s (PointerMove e) in
  let dx := clientX e - x (last s) in
  let dy := clientY e - y (last s) in
  dragging s = true /\
  zoom s' = zoom s /\
  Point_eq (screenAt s' w)
           {| x := x (screenAt s w) + dx; y := y (screenAt s w) + dy |} /\
  Point_eq (itemScreen s' it)
           {| x := x (itemScreen s it) + dx; y := y (itemScreen s it) + dy |}.
Proof.
  cbv zeta. split; [reflexivity |].
  apply (X6_drag_moves_items_rigidly defaultProps draggingDefault). reflexivity.
Defined.

(** X7.  A wheel event scales the picture about the cursor.  On a mounted
    viewport with a non-zero zoom, clamped or not, the offset of every
    drawn world point from the cursor is multiplied by
    [newZoom / oldZoom]; so whatever is drawn under the cursor stays under
    it. *)
Theorem X7_wheel_scales_about_cursor
  (props : Props) (s : State) (rect : DOMRect) (e : WheelEvent)
  (w : Point) (it : MapItem.t)
  (Hmounted : viewportRef s = Some rect) (Hzoom : ~ zoom s == 0) :
  let s' := step props s (Wheel e) in
  let c := cursorIn rect e in
  let r := zoom s' / zoom s in
  x (screenAt s' w) - x c == r * (x (screenAt s w) - x c) /\
  y (screenAt s' w) - y c == r * (y (screenAt s w) - y c) /\
  (Point_eq (screenAt s w) c -> Point_eq (screenAt s' w) c) /\
  (Point_eq (itemScreen s it) c -> Point_eq (itemScreen s' it) c).
Proof.
  cbv zeta. unfold step, dispatch.
  rewrite (onWheel_mounted props e s rect Hmounted), applyZoomAt_run.
  cbv zeta. unfold itemScreen, screenAt, applyTransform, worldTransform, Point_eq.
  cbn [fst pan zoom x y translateX translateY scale].
  set (nz := clamp _ _ _).
  assert (Hx : forall u : number,
             x (cursorIn rect e) - (x (cursorIn rect e) - x (pan s)) / zoom s * nz
             + nz * u - x (cursorIn rect e)
             == nz / zoom s * (x (pan s) + zoom s * u - x (cursorIn rect e)))
    by (intros u; field; exact Hzoom).
  assert (Hy : forall u : number,
             y (cursorIn rect e) - (y (cursorIn rect e) - y (pan s)) / zoom s * nz
             + nz * u - y (cursorIn rect e)
             == nz / zoom s * (y (pan s) + zoom s * u - y (cursorIn rect e)))
    by (intros u; field; exact Hzoom).
  split; [apply Hx |]. split; [apply Hy |].
  split; intros [Ex Ey]; split.
  - specialize (Hx (x w)). rewrite Ex in Hx. lra.
  - specialize (Hy (y w)). rewrite Ey in Hy. lra.
  - specialize (Hx (MapItem.x it)). rewrite Ex in Hx. lra.
  - specialize (Hy (MapItem.y it)). rewrite Ey in Hy. lra.
Qed.

Lemma X7_wheel_scales_about_cursor_witness :
  let s := pannedDefault in
  let e := {| wheelX := 91; wheelY := 22; deltaY := 3 |} in
  let w := {| x := 64; y := -(32) |} in
  let it := MapItem.mk (MapItem.IdNumber 7) 64 (-(32)) None in
  let s' := step defaultProps s (Wheel e) in
  let c := cursorIn origin e in
  let r := zoom s' / zoom s in
  (viewportRef s = Some origin /\ ~ zoom s == 0 /\
   Point_eq (screenAt s w) c /\ Point_eq (itemScreen s it) c) /\
  x (screenAt s' w) - x c == r * (x (screenAt s w) - x c) /\
  y (screenAt s' w) - y c == r * (y (screenAt s w) - y c) /\
  Point_eq (screenAt s' w) c /\
  Point_eq (itemScreen s' it) c.
Proof.
  cbv zeta.
  assert (Hz : ~ zoom pannedDefault == 0)
    by (intros H; vm_compute in H; discriminate H).
  split; [split; [reflexivity | split; [exact Hz | split; split; reflexivity]] |].
  destruct (X7_wheel_scales_about_cursor defaultProps pannedDefault origin
              {| wheelX := 91; wheelY := 22; deltaY := 3 |}
              {| x := 64; y := -(32) |}
              (MapItem.mk (MapItem.IdNumber 7) 64 (-(32)) None))
    as (Hx & Hy & Hw & Hit); [reflexivity | exact Hz |].
  split; [exact Hx |]. split; [exact Hy |].
  split; [apply Hw | apply Hit]; split; reflexivity.
Defined.

(** ** Runs of wheel events *)

Lemma step_wheel_positive (props : Props) (e : WheelEvent) (s : State) (rect : DOMRect) :
  0 < minZoom props -> minZoom props <= maxZoom props ->
  viewportRef s = Some rect -> 0 < zoom (step props s (Wheel e)).
Proof.
  intros Hmin Hcfg Hv. rewrite (step_wheel_zoom props e s rect Hv).
  destruct (clamp_bounds (zoom s * wheelFactor e) _ _ Hcfg). lra.
Qed.

Lemma step_wheel_anchors (props : Props) (e : WheelEvent) (s : State) (rect : DOMRect) :
  0 < minZoom props -> minZoom props <= maxZoom props ->
  viewportRef s = Some rect -> 0 < zoom s ->
  Point_eq (worldAt (step props s (Wheel e)) (cursorIn rect e))
           (worldAt s (cursorIn rect e)).
Proof.
  intros Hmin Hcfg Hv Hz. unfold step, dispatch.
  rewrite (onWheel_mounted props e s rect Hv).
  apply applyZoomAt_anchors; apply pos_nonzero; [exact Hz |].
  destruct (clamp_bounds (zoom s * wheelFactor e) _ _ Hcfg). lra.
Qed.

(** X8.  Anchoring survives clamping and repetition.  Under
    [0 < minZoom <= maxZoom], on a mounted viewport and from a positive
    zoom, after each of any run of wheel events at one client point, in
    either direction and whether or not the clamp bites, the zoom is
    still positive and the world point under the cursor is the one that
    was there before the run. *)
Theorem X8_anchoring_over_wheel_runs
  (props : Props) (s : State) (rect : DOMRect) (cx cy : number)
  (es : list WheelEvent)
  (Hmin : 0 < minZoom props) (Hcfg : minZoom props <= maxZoom props)
  (Hmounted : viewportRef s = Some rect) (Hzoom : 0 < zoom s)
  (Hat : Forall (fun e => wheelX e = cx /\ wheelY e = cy) es) :
  let c := {| x := cx - left rect; y := cy - top rect |} in
  Forall (fun s' => 0 < zoom s' /\ Point_eq (worldAt s' c) (worldAt s c))
         (trace props (map Wheel es) s).
Proof.
  cbv zeta.
  assert (Hgen : forall t : State,
             viewportRef t = Some rect -> 0 < zoom t ->
             Point_eq (worldAt t {| x := cx - left rect; y := cy - top rect |})
                      (worldAt s {| x := cx - left rect; y := cy - top rect |}) ->
             Forall (fun s' => 0 < zoom s' /\
                               Point_eq (worldAt s' {| x := cx - left rect; y := cy - top rect |})
                                        (worldAt s {| x := cx - left rect; y := cy - top rect |}))
                    (trace props (map Wheel es) t)).
  { induction es as [| e es IH]; intros t Hv Hz Ht; cbn; [constructor |].
    inversion Hat as [| ? ? [Ex Ey] Hat']; subst.
    assert (Hz' : 0 < zoom (step props t (Wheel e)))
      by (apply (step_wheel_positive props e t rect); assumption).
    assert (Ht' : Point_eq (worldAt (step props t (Wheel e))
                              {| x := wheelX e - left rect; y := wheelY e - top rect |})
                           (worldAt s {| x := wheelX e - left rect; y := wheelY e - top rect |})).
    { eapply Point_eq_trans; [| exact Ht].
      apply (step_wheel_anchors props e t rect); assumption. }
    constructor; [split; assumption |].
    apply IH; try assumption.
    rewrite step_wheel_viewportRef. exact Hv. }
  apply Hgen; [exact Hmounted | exact Hzoom | apply Point_eq_refl].
Qed.

Lemma X8_anchoring_over_wheel_runs_witness :
  let s := pannedDefault in
  let tick d := {| wheelX := 91; wheelY := 22; deltaY := d |} in
  let es := [tick (-(1)); tick (-(1)); tick (-(1)); tick (-(1));
             tick (-(1)); tick (-(1)); tick (-(1)); tick (-(1)); tick 1] in
  let c := {| x := 91 - left origin; y := 22 - top origin |} in
  (0 < minZoom defaultProps /\ minZoom defaultProps <= maxZoom defaultProps /\
   viewportRef s = Some origin /\ 0 < zoom s /\
   Forall (fun e => wheelX e = 91 /\ wheelY e = 22) es) /\
  Forall (fun s' => 0 < zoom s' /\ Point_eq (worldAt s' c) (worldAt s c))
         (trace defaultProps (map Wheel es) s).
Proof.
  cbv zeta.
  assert (Hat : Forall (fun e => wheelX e = 91 /\ wheelY e = 22)
                  [ {| wheelX := 91; wheelY := 22; deltaY := -(1) |};
                    {| wheelX := 91; wheelY := 22; deltaY := -(1) |};
                    {| wheelX := 91; wheelY := 22; deltaY := -(1) |};
                    {| wheelX := 91; wheelY := 22; deltaY := -(1) |};
                    {| wheelX := 91; wheelY := 22; deltaY := -(1) |};
                    {| wheelX := 91; wheelY := 22; deltaY := -(1) |};
                    {| wheelX := 91; wheelY := 22; deltaY := -(1) |};
                    {| wheelX := 91; wheelY := 22; deltaY := -(1) |};
                    {| wheelX := 91; wheelY := 22; deltaY := 1 |} ])
    by (repeat constructor).
  split.
  - split; [reflexivity |]. split; [vm_compute; congruence |].
    split; [reflexivity |]. split; [reflexivity | exact Hat].
  - apply (X8_anchoring_over_wheel_runs defaultProps pannedDefault origin 91 22);
      [reflexivity | vm_compute; congruence | reflexivity | reflexivity | exact Hat].
Defined.

(** ** Faults, frames and invariants *)

(** X9.  A capture fault does not stop the drag.  [onPointerDown] has
    already set [dragging], the cursor class and [last] when it calls
    [setPointerCapture]; nothing catches a fault of that call, so the
    handler completes exactly as the call does (a [TypeError] when the
    event has no target), and the next pointer-move pans from the
    pointer-down position all the same. *)
Theorem X9_capture_fault_propagates_drag_starts
  (props : Props) (s : State) (down move : PointerEvent) :
  let r := dispatch props (PointerDown down) s in
  snd r = match currentTarget down with
          | Some el => setPointerCapture el (pointerId down)
          | None => Throw TypeError
          end /\
  dragging (fst r) = true /\ cursorStyle (fst r) = "cursor-move"%string /\
  last (fst r) = eventPoint down /\
  pan (fst r) = pan s /\ zoom (fst r) = zoom s /\
  viewportRef (fst r) = viewportRef s /\
  pan (step props (fst r) (PointerMove move)) =
    {| x := x (pan s) + (clientX move - clientX down);
       y := y (pan s) + (clientY move - clientY down) |}.
Proof.
  cbv zeta. unfold step. cbn [dispatch].
  split; [apply onPointerDown_completion |].
  rewrite onPointerDown_state.
  rewrite onPointerMove_dragging by reflexivity.
  repeat split.
Qed.

Lemma step_viewportRef (props : Props) (ev : Event) (s : State) :
  viewportRef (step props s ev) = viewportRef s.
Proof.
  destruct ev as [e | e | e | e | e]; try apply step_wheel_viewportRef;
    unfold step; cbn [dispatch].
  - rewrite onPointerDown_state. reflexivity.
  - destruct (dragging s) eqn:Hd.
    + rewrite (onPointerMove_dragging e s Hd). reflexivity.
    + rewrite (onPointerMove_idle e s Hd). reflexivity.
  - rewrite onPointerUp_run. reflexivity.
  - rewrite onPointerUp_run. reflexivity.
Qed.

Lemma onWheel_completes (props : Props) (e : WheelEvent) (s : State) :
  snd (onWheel props e s) = Normal tt.
Proof.
  destruct (viewportRef s) as [rect |] eqn:Hv.
  - rewrite (onWheel_mounted props e s rect Hv), applyZoomAt_run. reflexivity.
  - rewrite (onWheel_unmounted props e s Hv). reflexivity.
Qed.

Lemma onPointerMove_completes (e : PointerEvent) (s : State) :
  snd (onPointerMove e s) = Normal tt.
Proof.
  destruct (dragging s) eqn:Hd.
  - rewrite (onPointerMove_dragging e s Hd). reflexivity.
  - rewrite (onPointerMove_idle e s Hd). reflexivity.
Qed.

(** X10.  What the handlers leave alone.  No handler writes
    [viewportRef].  The pointer handlers never write the zoom, and only
    [onPointerMove] writes the pan.  [onWheel] never writes [dragging],
    [last] or the cursor class, so a wheel event in the middle of a drag
    does not end the drag; before the viewport is mounted it writes
    nothing at all.  Only [onPointerDown] can complete with a throw. *)
Theorem X10_handler_frames (props : Props) (s : State) (ev : Event) :
  let s' := step props s ev in
  viewportRef s' = viewportRef s /\
  match ev with
  | Wheel e =>
      dragging s' = dragging s /\ last s' = last s /\
      cursorStyle s' = cursorStyle s /\
      match viewportRef s with None => s' = s | Some _ => True end
  | PointerMove _ => zoom s' = zoom s
  | _ => zoom s' = zoom s /\ pan s' = pan s
  end /\
  match ev with
  | PointerDown _ => True
  | _ => snd (dispatch props ev s) = Normal tt
  end.
Proof.
  cbv zeta. split; [apply step_viewportRef |].
  unfold step. destruct ev as [e | e | e | e | e]; cbn [dispatch].
  - rewrite onPointerDown_state. repeat split.
  - split; [| apply onPointerMove_completes].
    destruct (dragging s) eqn:Hd.
    + rewrite (onPointerMove_dragging e s Hd). reflexivity.
    + rewrite (onPointerMove_idle e s Hd). reflexivity.
  - rewrite onPointerUp_run. repeat split.
  - rewrite onPointerUp_run. repeat split.
  - split; [| apply onWheel_completes].
    destruct (viewportRef s) as [rect |] eqn:Hv.
    + rewrite (onWheel_mounted props e s rect Hv), applyZoomAt_run.
      repeat split.
    + rewrite (onWheel_unmounted props e s Hv). repeat split.
Qed.

Lemma step_cursorTracksDrag (props : Props) (ev : Event) (s : State) :
  cursorTracksDrag s -> cursorTracksDrag (step props s ev).
Proof.
  unfold cursorTracksDrag, step. intros Hs.
  destruct ev as [e | e | e | e | e]; cbn [dispatch].
  - rewrite onPointerDown_state. reflexivity.
  - destruct (dragging s) eqn:Hd.
    + rewrite (onPointerMove_dragging e s Hd). exact Hs.
    + rewrite (onPointerMove_idle e s Hd). cbn [fst]. rewrite Hd. exact Hs.
  - rewrite onPointerUp_run. reflexivity.
  - rewrite onPointerUp_run. reflexivity.
  - destruct (viewportRef s) as [rect |] eqn:Hv.
    + rewrite (onWheel_mounted props e s rect Hv), applyZoomAt_run. exact Hs.
    + rewrite (onWheel_unmounted props e s Hv). exact Hs.
Qed.

Lemma trace_invariant (props : Props) (P : State -> Prop) :
  (forall ev s, P s -> P (step props s ev)) ->
  forall (evs : list Event) (s : State), P s -> Forall P (trace props evs s).
Proof.
  intros Hstep evs. induction evs as [| ev evs IH]; intros s Hs; cbn.
  - constructor.
  - constructor; [apply Hstep; exact Hs | apply IH, Hstep; exact Hs].
Qed.

(** X11.  The cursor class tracks the drag.  In the state a mounted
    component starts in, and after each event of any sequence of events
    from there, the cursor class is ["cursor-move"] exactly while
    [dragging] is true and ["cursor-default"] otherwise, and
    [viewportRef] is still the mounted element. *)
Theorem X11_cursor_tracks_drag
  (props : Props) (rect : DOMRect) (evs : list Event) :
  let s0 := mount rect (initialState props) in
  cursorTracksDrag s0 /\
  Forall (fun s => cursorTracksDrag s /\ viewportRef s = Some rect)
         (trace props evs s0).
Proof.
  cbv zeta. split; [reflexivity |].
  apply (trace_invariant props
           (fun s => cursorTracksDrag s /\ viewportRef s = Some rect)).
  - intros ev s [Hc Hv]. split; [apply step_cursorTracksDrag; exact Hc |].
    rewrite step_viewportRef. exact Hv.
  - split; reflexivity.
Qed.

Lemma run_viewportRef (props : Props) (evs : list Event) (s : State) :
  viewportRef (run props evs s) = viewportRef s.
Proof.
  revert s. induction evs as [| ev evs IH]; intros s; cbn; [reflexivity |].
  fold (run props evs (step props s ev)). rewrite IH. apply step_viewportRef.
Qed.

Lemma step_pointer_zoom (props : Props) (ev : Event) (s : State) :
  (forall w, ev <> Wheel w) -> zoom (step props s ev) = zoom s.
Proof.
  intros Hev. unfold step. destruct ev as [e | e | e | e | e]; cbn [dispatch].
  - rewrite onPointerDown_state. reflexivity.
  - destruct (dragging s) eqn:Hd.
    + rewrite (onPointerMove_dragging e s Hd). reflexivity.
    + rewrite (onPointerMove_idle e s Hd). reflexivity.
  - rewrite onPointerUp_run. reflexivity.
  - rewrite onPointerUp_run. reflexivity.
  - exfalso. apply (Hev e). reflexivity.
Qed.

Lemma run_pointer_zoom (props : Props) (evs : list Event) (s : State) :
  Forall (fun ev => forall w, ev <> Wheel w) evs -> zoom (run props evs s) = zoom s.
Proof.
  revert s. induction evs as [| ev evs IH]; intros s Hev; cbn; [reflexivity |].
  inversion Hev as [| ? ? H1 H2]; subst.
  fold (run props evs (step props s ev)). rewrite (IH _ H2).
  apply step_pointer_zoom. exact H1.
Qed.

(** X12.  The zoom bound over the component's life, for
    [minZoom <= maxZoom].  From the mounted initial state: if
    [initialZoom] lies in [[minZoom, maxZoom]], so does the zoom after
    every event; whatever [initialZoom] is, pointer events alone leave the
    zoom at [initialZoom], and from the first wheel event on the zoom
    lies in [[minZoom, maxZoom]] after every event. *)
Theorem X12_zoom_bound_over_lifetime
  (props : Props) (rect : DOMRect) (before after : list Event) (e : WheelEvent)
  (Hcfg : minZoom props <= maxZoom props) :
  let s0 := mount rect (initialState props) in
  (minZoom props <= initialZoom props -> initialZoom props <= maxZoom props ->
   Forall (zoomInBounds props) (trace props before s0)) /\
  (Forall (fun ev => forall w, ev <> Wheel w) before ->
   zoom (run props before s0) = initialZoom props) /\
  Forall (zoomInBounds props)
         (trace props (Wheel e :: after) (run props before s0)).
Proof.
  cbv zeta. split; [| split].
  - intros Hlo Hhi. apply trace_invariant.
    + intros ev s. apply step_zoomInBounds. exact Hcfg.
    + split; assumption.
  - intros Hev. rewrite (run_pointer_zoom props before _ Hev). reflexivity.
  - cbn [trace].
    assert (Hin : zoomInBounds props
                    (step props (run props before (mount rect (initialState props)))
                          (Wheel e))).
    { unfold zoomInBounds. rewrite (step_wheel_zoom props e _ rect).
      - apply clamp_bounds. exact Hcfg.
      - rewrite run_viewportRef. reflexivity. }
    constructor; [exact Hin |].
    apply trace_invariant; [| exact Hin].
    intros ev s. apply step_zoomInBounds. exact Hcfg.
Qed.

Lemma X12_zoom_bound_over_lifetime_witness :
  let props := withDefaults oversizedInitialZoom in
  let s0 := mount origin (initialState props) in
  let before := [ PointerDown (mkPointerEvent 50 50 1 None);
                  PointerMove (mkPointerEvent 70 65 1 None);
                  PointerUp (mkPointerEvent 70 65 1 None) ] in
  let after := [ PointerDown (mkPointerEvent 1 2 1 None);
                 Wheel {| wheelX := 1; wheelY := 2; deltaY := -(1) |} ] in
  let e := {| wheelX := 10; wheelY := 20; deltaY := 1 |} in
  (minZoom props <= maxZoom props /\
   Forall (fun ev => forall w, ev <> Wheel w) before) /\
  zoom (run props before s0) = initialZoom props /\
  ~ zoomInBounds props (run props before s0) /\
  Forall (zoomInBounds props)
         (trace props (Wheel e :: after) (run props before s0)) /\
  Forall (zoomInBounds defaultProps)
         (trace defaultProps before (mount origin (initialState defaultProps))).
Proof.
  cbv zeta.
  assert (Hcfg : minZoom (withDefaults oversizedInitialZoom)
                 <= maxZoom (withDefaults oversizedInitialZoom))
    by (vm_compute; congruence).
  assert (Hbefore : Forall (fun ev => forall w, ev <> Wheel w)
                      [ PointerDown (mkPointerEvent 50 50 1 None);
                        PointerMove (mkPointerEvent 70 65 1 None);
                        PointerUp (mkPointerEvent 70 65 1 None) ])
    by (repeat constructor; intros w H; discriminate H).
  destruct (X12_zoom_bound_over_lifetime (withDefaults oversizedInitialZoom) origin
              [ PointerDown (mkPointerEvent 50 50 1 None);
                PointerMove (mkPointerEvent 70 65 1 None);
                PointerUp (mkPointerEvent 70 65 1 None) ]
              [ PointerDown (mkPointerEvent 1 2 1 None);
                Wheel {| wheelX := 1; wheelY := 2; deltaY := -(1) |} ]
              {| wheelX := 10; wheelY := 20; deltaY := 1 |} Hcfg)
    as (_ & Hsame & Hafter).
  destruct (X12_zoom_bound_over_lifetime defaultProps origin
              [ PointerDown (mkPointerEvent 50 50 1 None);
                PointerMove (mkPointerEvent 70 65 1 None);
                PointerUp (mkPointerEvent 70 65 1 None) ]
              [] {| wheelX := 10; wheelY := 20; deltaY := 1 |})
    as (Hin & _ & _); [vm_compute; congruence |].
  split; [split; assumption |].
  split; [apply Hsame; exact Hbefore |].
  split; [intros [_ H]; vm_compute in H; congruence |].
  split; [exact Hafter |].
  apply Hin; vm_compute; congruence.
Defined.

(** X13.  Inverted bounds pin the zoom to [minZoom].  With
    [maxZoom < minZoom], [clamp] returns [minZoom] whatever it is given,
    so every wheel event on a mounted viewport, in either direction and
    from any zoom, sets the zoom to [minZoom], which lies above
    [maxZoom]. *)
Theorem X13_inverted_bounds_pin_zoom
  (props : Props) (s : State) (rect : DOMRect) (e : WheelEvent) (v : number)
  (Hinv : maxZoom props < minZoom props)
  (Hmounted : viewportRef s = Some rect) :
  clamp v (minZoom props) (maxZoom props) == minZoom props /\
  zoom (step props s (Wheel e)) == minZoom props /\
  ~ zoomInBounds props (step props s (Wheel e)).
Proof.
  assert (Hclamp : forall u, clamp u (minZoom props) (maxZoom props) == minZoom props).
  { intros u. unfold clamp.
    destruct (Q.max_spec (minZoom props) (Qmin (maxZoom props) u)) as [[? ->] | [? ->]];
      destruct (Q.min_spec (maxZoom props) u) as [[? E] | [? E]];
      rewrite ?E in *; lra. }
  split; [apply Hclamp |].
  rewrite (step_wheel_zoom props e s rect Hmounted).
  split; [apply Hclamp |].
  unfold zoomInBounds. rewrite (step_wheel_zoom props e s rect Hmounted), Hclamp.
  lra.
Qed.

Lemma X13_inverted_bounds_pin_zoom_witness :
  let props := withDefaults invalidConfig in
  let s := mount origin (initialState props) in
  let e := {| wheelX := 10; wheelY := 20; deltaY := 1 |} in
  (maxZoom props < minZoom props /\ viewportRef s = Some origin) /\
  clamp 1 (minZoom props) (maxZoom props) == minZoom props /\
  zoom (step props s (Wheel e)) == minZoom props /\
  ~ zoomInBounds props (step props s (Wheel e)).
Proof.
  cbv zeta. split; [split; reflexivity |].
  apply (X13_inverted_bounds_pin_zoom (withDefaults invalidConfig)
           (mount origin (initialState (withDefaults invalidConfig))) origin);
    reflexivity.
Defined.

(** ** Direction and size of a zoom step *)

Lemma clamp_up (z a lo hi : number) :
  lo <= z -> z <= hi -> 0 <= z -> 1 <= a ->
  clamp (z * a) lo hi == Qmin hi (z * a).
Proof.
  intros Hlo Hhi Hz Ha. unfold clamp.
  assert (z <= z * a) by nra.
  destruct (Q.max_spec lo (Qmin hi (z * a))) as [[? ->] | [? ->]];
    destruct (Q.min_spec hi (z * a)) as [[? E] | [? E]]; rewrite ?E in *; lra.
Qed.

Lemma clamp_down (z a lo hi : number) :
  lo <= z -> z <= hi -> 0 <= z -> a <= 1 ->
  clamp (z * a) lo hi == Qmax lo (z * a).
Proof.
  intros Hlo Hhi Hz Ha. unfold clamp.
  assert (z * a <= z) by nra.
  destruct (Q.max_spec lo (Qmin hi (z * a))) as [[? E1] | [? E1]];
    destruct (Q.max_spec lo (z * a)) as [[? E2] | [? E2]];
    destruct (Q.min_spec hi (z * a)) as [[? E] | [? E]];
    rewrite ?E1, ?E2, ?E in *; lra.
Qed.

(** X14.  A wheel tick moves the zoom the way the wheel turns.  Under
    [0 < minZoom <= maxZoom], on a mounted viewport with the zoom in
    bounds: an event with [deltaY <= 0] (zero included) sets the zoom to
    [min (maxZoom, 1.1 * zoom)], never lower than before and higher
    unless already at [maxZoom]; an event with [deltaY > 0] sets it to
    [max (minZoom, 0.9 * zoom)], never higher than before and lower
    unless already at [minZoom].  The size of [deltaY] plays no part. *)
Theorem X14_wheel_direction
  (props : Props) (s : State) (rect : DOMRect) (e : WheelEvent)
  (Hmin : 0 < minZoom props) (Hcfg : minZoom props <= maxZoom props)
  (Hmounted : viewportRef s = Some rect) (Hin : zoomInBounds props s) :
  let s' := step props s (Wheel e) in
  (deltaY e <= 0 ->
   zoom s' == Qmin (maxZoom props) (zoom s * 1.1) /\
   zoom s <= zoom s' /\ (zoom s < maxZoom props -> zoom s < zoom s')) /\
  (0 < deltaY e ->
   zoom s' == Qmax (minZoom props) (zoom s * 0.9) /\
   zoom s' <= zoom s /\ (minZoom props < zoom s -> zoom s' < zoom s)).
Proof.
  cbv zeta. destruct Hin as [Hlo Hhi].
  rewrite (step_wheel_zoom props e s rect Hmounted).
  split; intros Hd.
  - destruct (wheelFactor_cases e) as [[H _] | [_ ->]]; [lra |].
    rewrite (clamp_up (zoom s) 1.1 _ _ Hlo Hhi) by lra.
    split; [reflexivity |].
    destruct (Q.min_spec (maxZoom props) (zoom s * 1.1)) as [[? ->] | [? ->]];
      split; intros; lra.
  - destruct (wheelFactor_cases e) as [[_ ->] | [H _]]; [| lra].
    rewrite (clamp_down (zoom s) 0.9 _ _ Hlo Hhi) by lra.
    split; [reflexivity |].
    destruct (Q.max_spec (minZoom props) (zoom s * 0.9)) as [[? ->] | [? ->]];
      split; intros; lra.
Qed.

Lemma X14_wheel_direction_witness :
  let s := pannedDefault in
  let still := {| wheelX := 3; wheelY := 4; deltaY := 0 |} in
  let away := {| wheelX := 3; wheelY := 4; deltaY := 250 |} in
  (0 < minZoom defaultProps /\ minZoom defaultProps <= maxZoom defaultProps /\
   viewportRef s = Some origin /\ zoomInBounds defaultProps s /\
   deltaY still <= 0 /\ 0 < deltaY away /\
   zoom s < maxZoom defaultProps /\ minZoom defaultProps < zoom s) /\
  (let s' := step defaultProps s (Wheel still) in
   zoom s' == Qmin (maxZoom defaultProps) (zoom s * 1.1) /\
   zoom s <= zoom s' /\ zoom s < zoom s') /\
  (let s' := step defaultProps s (Wheel away) in
   zoom s' == Qmax (minZoom defaultProps) (zoom s * 0.9) /\
   zoom s' <= zoom s /\ zoom s' < zoom s).
Proof.
  cbv zeta.
  assert (Hin : zoomInBounds defaultProps pannedDefault)
    by (split; vm_compute; congruence).
  split.
  - repeat split; try exact (proj1 Hin); try exact (proj2 Hin);
      vm_compute; congruence.
  - destruct (X14_wheel_direction defaultProps pannedDefault origin
                {| wheelX := 3; wheelY := 4; deltaY := 0 |})
      as [Hup _]; [reflexivity | vm_compute; congruence | reflexivity | exact Hin |].
    destruct (X14_wheel_direction defaultProps pannedDefault origin
                {| wheelX := 3; wheelY := 4; deltaY := 250 |})
      as [_ Hdown]; [reflexivity | vm_compute; congruence | reflexivity | exact Hin |].
    destruct Hup as (U1 & U2 & U3); [vm_compute; congruence |].
    destruct Hdown as (D1 & D2 & D3); [reflexivity |].
    split; (split; [assumption | split; [assumption |]]).
    + apply U3. reflexivity.
    + apply D3. reflexivity.
Defined.
